(** * simple-api: the in-memory item store of [main.py]

    A shallow embedding of the FastAPI handlers of [main.py] and the
    properties of the store they maintain.

    - Python [int] is [Z]; Python [str] is a list of Unicode code points.
    - The module globals [items] and [next_id] form the [Store]; together
      with the records handed to [logger] they form the [World] a handler
      runs in.
    - A handler is a computation in [M]: it takes the world, and returns
      either the exception it raised or its value, with the world it left
      behind.  A raise does not roll the world back, as in Python.
    - A route is its handler followed by the encoding of what the handler
      returned; an encoding that fails gives a 500 and keeps what the
      handler did. *)

From Stdlib Require Import String Ascii.
From Stdlib Require Import ZArith NArith Lia Bool List Sorted.
Import ListNotations.

Local Open Scope Z_scope.

(* ------------------------------------------------------------------ *)
(** ** Python strings *)

(** A [str] is a sequence of code points. *)
Definition str := list N.

Definition str_eq_dec : forall a b : str, {a = b} + {a <> b} :=
  list_eq_dec N.eq_dec.

(** [a == b] on two [str]. *)
Definition str_eqb (a b : str) : bool :=
  if str_eq_dec a b then true else false.

(** A string literal of the source, as a [str]. *)
Fixpoint lit (s : string) : str :=
  match s with
  | EmptyString => []
  | String c s' => N_of_ascii c :: lit s'
  end.

(** [ch.isspace()] for one code point: the code points CPython's
    [_PyUnicode_IsWhitespace] accepts. *)
Definition isspace (c : N) : bool :=
  (((0x09 <=? c) && (c <=? 0x0D))
   || ((0x1C <=? c) && (c <=? 0x20))
   || (c =? 0x85) || (c =? 0xA0) || (c =? 0x1680)
   || ((0x2000 <=? c) && (c <=? 0x200A))
   || (c =? 0x2028) || (c =? 0x2029) || (c =? 0x202F)
   || (c =? 0x205F) || (c =? 0x3000))%N.

(** [s.lstrip()], [s.rstrip()] and [s.strip()] with no argument. *)
Fixpoint lstrip (s : str) : str :=
  match s with
  | [] => []
  | c :: s' => if isspace c then lstrip s' else s
  end.

Definition rstrip (s : str) : str := rev (lstrip (rev s)).

Definition strip (s : str) : str := rstrip (lstrip s).

(** [str.lower] on a text of ASCII code points: [A]..[Z] go to [a]..[z]. *)
Definition is_ascii (c : N) : bool := (c <? 128)%N.

Definition ascii_lower_char (c : N) : N :=
  if ((0x41 <=? c) && (c <=? 0x5A))%N then (c + 32)%N else c.

Definition ascii_lower (s : str) : str := map ascii_lower_char s.

(* ------------------------------------------------------------------ *)
(** ** Models *)

Module Item.

Record t : Type := mk {
  id : Z;
  name : str;
  description : option str
}.

(** Two [Item]s are [==] when their fields are. *)
Definition eq_dec : forall a b : t, {a = b} + {a <> b}.
Proof.
  pose proof str_eq_dec. pose proof Z.eq_dec.
  repeat decide equality.
Defined.

Definition eqb (a b : t) : bool := if eq_dec a b then true else false.

End Item.

Module ItemCreate.

Record t : Type := mk {
  name : str;
  description : option str
}.

End ItemCreate.

(* ------------------------------------------------------------------ *)
(** ** The world of a handler *)

(** An argument of a logging call. *)
Inductive LogArg : Type :=
| ArgInt (n : Z)
| ArgStr (s : str).

Inductive LogLevel : Type := INFO | WARNING.

(** One call of [logger.info] or [logger.warning]: the format string and
    its arguments. *)
Record LogRecord : Type := mkLogRecord {
  levelname : LogLevel;
  msg : string;
  args : list LogArg
}.

(** The in-memory store: the globals [items] and [next_id]. *)
Record Store : Type := mkStore {
  items : list Item.t;
  next_id : Z
}.

Record World : Type := mkWorld {
  store : Store;
  logged : list LogRecord
}.

(** The store when the module has just been imported. *)
Definition initial_store : Store := mkStore [] 1.

Definition initial_world : World := mkWorld initial_store [].

(* ------------------------------------------------------------------ *)
(** ** Exceptions and the handler monad *)

Inductive Exception : Type :=
| HTTPException (status_code : Z) (detail : string)
| ValueError.

Definition M (A : Type) : Type := World -> (Exception + A) * World.

Definition ret {A} (a : A) : M A := fun w => (inr a, w).

Definition raise {A} (e : Exception) : M A := fun w => (inl e, w).

Definition bind {A B} (m : M A) (k : A -> M B) : M B :=
  fun w =>
    match m w with
    | (inl e, w') => (inl e, w')
    | (inr a, w') => k a w'
    end.

Notation "x <- m ;; k" := (bind m (fun x => k))
  (at level 61, m at next level, right associativity).
Notation "m ;; k" := (bind m (fun _ => k))
  (at level 61, right associativity).

(** Reads and writes of the globals. *)
Definition read_items : M (list Item.t) :=
  fun w => (inr (items (store w)), w).

Definition write_items (l : list Item.t) : M unit :=
  fun w => (inr tt, mkWorld (mkStore l (next_id (store w))) (logged w)).

Definition read_next_id : M Z :=
  fun w => (inr (next_id (store w)), w).

Definition write_next_id (n : Z) : M unit :=
  fun w => (inr tt, mkWorld (mkStore (items (store w)) n) (logged w)).

Definition logger_info (m : string) (a : list LogArg) : M unit :=
  fun w => (inr tt, mkWorld (store w) (logged w ++ [mkLogRecord INFO m a])).

Definition logger_warning (m : string) (a : list LogArg) : M unit :=
  fun w => (inr tt, mkWorld (store w) (logged w ++ [mkLogRecord WARNING m a])).

(** [l.append(x)] on the global list. *)
Definition items_append (x : Item.t) : M unit :=
  l <- read_items ;; write_items (l ++ [x]).

(** [l.remove(x)]: the list without its first element equal to [x];
    [None] when there is none (Python raises [ValueError]). *)
Fixpoint list_remove (x : Item.t) (l : list Item.t) : option (list Item.t) :=
  match l with
  | [] => None
  | y :: l' =>
      if Item.eqb y x then Some l'
      else match list_remove x l' with
           | Some r => Some (y :: r)
           | None => None
           end
  end.

Definition items_remove (x : Item.t) : M unit :=
  l <- read_items ;;
  match list_remove x l with
  | Some l' => write_items l'
  | None => raise ValueError
  end.

(* ------------------------------------------------------------------ *)
(** ** Responses *)

Inductive Body : Type :=
| HealthBody (status : string) (env : str)
| ItemsBody (l : list Item.t)
| ItemBody (i : Item.t)
| DetailBody (detail : string)
| NoBody
| InternalServerError.

Record Response : Type := mkResponse {
  status_code : Z;
  body : Body
}.

Inductive Request : Type :=
| GET_health
| GET_items
| POST_items (item : ItemCreate.t)
| GET_item (item_id : Z)
| DELETE_item (item_id : Z).

(** *** Encoding a response

    The value a handler returns is rendered as
    [json.dumps(content, ensure_ascii=False).encode("utf-8")].  The
    encoding raises on a string that holds a lone surrogate (a code point
    from U+D800 to U+DFFF); that happens after the handler has run, and the
    request is answered with a 500. *)
Definition is_surrogate (c : N) : bool :=
  ((0xD800 <=? c) && (c <=? 0xDFFF))%N.

(** [s.encode("utf-8")] does not raise. *)
Definition str_encodable (s : str) : bool :=
  forallb (fun c => negb (is_surrogate c)) s.

Definition description_encodable (d : option str) : bool :=
  match d with
  | Some s => str_encodable s
  | None => true
  end.

Definition item_encodable (item : Item.t) : bool :=
  str_encodable (Item.name item)
  && description_encodable (Item.description item).

Definition request_encodable (item : ItemCreate.t) : bool :=
  str_encodable (ItemCreate.name item)
  && description_encodable (ItemCreate.description item).

Definition body_encodable (b : Body) : bool :=
  match b with
  | HealthBody _ env => str_encodable env
  | ItemsBody l => forallb item_encodable l
  | ItemBody item => item_encodable item
  | DetailBody _ => true
  | NoBody => true
  | InternalServerError => true
  end.

Definition server_error_response : Response :=
  mkResponse 500 InternalServerError.

(** The response for a returned value [b] on a route declared with
    [code]. *)
Definition render (code : Z) (b : Body) : Response :=
  if body_encodable b then mkResponse code b else server_error_response.

(** What FastAPI answers for a route declared with [code] whose handler
    is [h]: the handler's value rendered under [code], the status and
    detail of an [HTTPException], and a 500 for any other exception. *)
Definition respond {A} (code : Z) (to_body : A -> Body) (h : M A)
  : World -> Response * World :=
  fun w =>
    match h w with
    | (inr a, w') => (render code (to_body a), w')
    | (inl (HTTPException c d), w') => (mkResponse c (DetailBody d), w')
    | (inl ValueError, w') => (server_error_response, w')
    end.

(* ------------------------------------------------------------------ *)
(** ** Constants used in the statements *)


(** The [HTTPException]s of [main.py]. *)
Definition DuplicateName : Exception :=
  HTTPException 400 "Item with this name already exists".

Definition NotFound : Exception :=
  HTTPException 404 "Item not found".

(** Sample request bodies. *)
Definition pen : ItemCreate.t := ItemCreate.mk (lit "Pen") None.

Definition ink : ItemCreate.t :=
  ItemCreate.mk (lit "Ink") (Some (lit "blue")).


Definition widget : ItemCreate.t := ItemCreate.mk (lit "Widget") None.

Definition blank : ItemCreate.t := ItemCreate.mk (lit "  ") None.

Definition empty_name : ItemCreate.t := ItemCreate.mk [] None.


(* ------------------------------------------------------------------ *)
(** ** Functions and endpoints of [main.py] *)

Section Api.

(** [str.lower]: the Unicode case mapping of the interpreter. *)
Variable lower : str -> str.

(** The configuration read from the environment at import. *)
Variable APP_ENV : str.

Definition normalize_name (name : str) : str := lower (strip name).

(** The loop of [find_item] over the stored items. *)
Fixpoint find_item_loop (l : list Item.t) (item_id : Z) : option Item.t :=
  match l with
  | [] => None
  | item :: l' =>
      if Item.id item =? item_id then Some item
      else find_item_loop l' item_id
  end.

Definition find_item (item_id : Z) : M (option Item.t) :=
  l <- read_items ;; ret (find_item_loop l item_id).

(** The loop of [ensure_unique_name] over the stored items. *)
Fixpoint ensure_unique_name_loop (l : list Item.t) (normalized : str)
  : M unit :=
  match l with
  | [] => ret tt
  | item :: l' =>
      if str_eqb (normalize_name (Item.name item)) normalized
      then raise (HTTPException 400 "Item with this name already exists")
      else ensure_unique_name_loop l' normalized
  end.

Definition ensure_unique_name (name : str) : M unit :=
  let normalized := normalize_name name in
  l <- read_items ;; ensure_unique_name_loop l normalized.

Definition health_check : M Body :=
  ret (HealthBody "ok" APP_ENV).

Definition get_items : M (list Item.t) :=
  l <- read_items ;;
  logger_info "List items (count=%d)" [ArgInt (Z.of_nat (List.length l))] ;;
  l <- read_items ;;
  ret l.

Definition create_item (item : ItemCreate.t) : M Item.t :=
  ensure_unique_name (ItemCreate.name item) ;;
  n <- read_next_id ;;
  let new_item :=
    Item.mk n (ItemCreate.name item) (ItemCreate.description item) in
  items_append new_item ;;
  logger_info "Created item id=%d name=%s"
    [ArgInt (Item.id new_item); ArgStr (Item.name new_item)] ;;
  n <- read_next_id ;;
  write_next_id (n + 1) ;;
  ret new_item.

Definition get_item (item_id : Z) : M Item.t :=
  item <- find_item item_id ;;
  match item with
  | None =>
      logger_warning "Item not found id=%d" [ArgInt item_id] ;;
      raise (HTTPException 404 "Item not found")
  | Some item =>
      logger_info "Retrieved item id=%d" [ArgInt (Item.id item)] ;;
      ret item
  end.

Definition delete_item (item_id : Z) : M unit :=
  item <- find_item item_id ;;
  match item with
  | None =>
      logger_warning "Item not found for deletion id=%d" [ArgInt item_id] ;;
      raise (HTTPException 404 "Item not found")
  | Some item =>
      logger_info "Deleted item id=%d" [ArgInt (Item.id item)] ;;
      items_remove item ;;
      ret tt
  end.

(** The routes registered on [app]. *)
Definition app (r : Request) : World -> Response * World :=
  match r with
  | GET_health => respond 200 (fun b => b) health_check
  | GET_items => respond 200 ItemsBody get_items
  | POST_items item => respond 201 ItemBody (create_item item)
  | GET_item item_id => respond 200 ItemBody (get_item item_id)
  | DELETE_item item_id => respond 204 (fun _ => NoBody) (delete_item item_id)
  end.

(** The world after a sequence of requests, served one after the other. *)
Fixpoint serve (rs : list Request) (w : World) : World :=
  match rs with
  | [] => w
  | r :: rs' => serve rs' (snd (app r w))
  end.

(** The responses to a sequence of requests. *)
Fixpoint responses (rs : list Request) (w : World) : list Response :=
  match rs with
  | [] => []
  | r :: rs' => fst (app r w) :: responses rs' (snd (app r w))
  end.


(** The item [create_item] builds in a world. *)
Definition created (item : ItemCreate.t) (w : World) : Item.t :=
  Item.mk (next_id (store w)) (ItemCreate.name item)
    (ItemCreate.description item).

(** ** Properties of a store *)

(** Some stored item has the normalized name of [name]. *)
Definition name_taken (l : list Item.t) (name : str) : bool :=
  existsb
    (fun item =>
       str_eqb (normalize_name (Item.name item)) (normalize_name name))
    l.

(** No two stored items have names that normalize to the same value. *)
Definition unique_names (s : Store) : Prop :=
  forall i j a b,
    nth_error (items s) i = Some a ->
    nth_error (items s) j = Some b ->
    normalize_name (Item.name a) = normalize_name (Item.name b) ->
    i = j.

(** The stored ids are in strictly increasing order, at least 1 and below
    the counter. *)
Definition ids_ok (s : Store) : Prop :=
  StronglySorted Z.lt (map Item.id (items s))
  /\ Forall (fun item => 1 <= Item.id item < next_id s) (items s)
  /\ 1 <= next_id s.

(** The normalized name of a stored item: the key of the duplicate check. *)
Definition item_key (item : Item.t) : str :=
  normalize_name (Item.name item).

(** The normalized name of a request body. *)
Definition body_key (item : ItemCreate.t) : str :=
  normalize_name (ItemCreate.name item).

(** The response to a create that succeeded. *)
Definition created_response (item : Item.t) : Response :=
  mkResponse 201 (ItemBody item).

(** The response to a create whose handler returned [item]: the 201 when
    the item can be encoded, the 500 when it cannot. *)
Definition create_answer (item : Item.t) : Response :=
  if item_encodable item then created_response item
  else server_error_response.

(** The response to a get whose handler returned [item]. *)
Definition get_answer (item : Item.t) : Response :=
  if item_encodable item then mkResponse 200 (ItemBody item)
  else server_error_response.


(** An id that was handed out and is no longer stored. *)
Definition retired (item_id : Z) (s : Store) : Prop :=
  item_id < next_id s /\ Forall (fun x => Item.id x <> item_id) (items s).

(** The responses to the two failures of [main.py]. *)
Definition duplicate_response : Response :=
  mkResponse 400 (DetailBody "Item with this name already exists").

Definition not_found_response : Response :=
  mkResponse 404 (DetailBody "Item not found").

(** [item] is the first of [l] with id [item_id]. *)
Definition first_with_id (l : list Item.t) (item_id : Z) (item : Item.t)
  : Prop :=
  exists l1 l2,
    l = l1 ++ item :: l2
    /\ Item.id item = item_id
    /\ Forall (fun x => Item.id x <> item_id) l1.

(** No item of [l] has id [item_id]. *)
Definition no_id (l : list Item.t) (item_id : Z) : Prop :=
  Forall (fun x => Item.id x <> item_id) l.

(** ** Properties of a run *)

(** The requests that only read: health, list and get. *)
Definition is_read (r : Request) : bool :=
  match r with
  | GET_health | GET_items | GET_item _ => true
  | POST_items _ | DELETE_item _ => false
  end.

Definition is_health (r : Request) : bool :=
  match r with
  | GET_health => true
  | _ => false
  end.




(** The requests of a run, each with its response. *)
Definition exchanges (rs : list Request) (w : World)
  : list (Request * Response) :=
  combine rs (responses rs w).



(* ------------------------------------------------------------------ *)
(** ** Strings: what [strip] removes *)



Lemma lstrip_spaces (s : str) :
  forallb isspace s = true -> lstrip s = [].
Proof.
  induction s as [|c s IH]; simpl; [reflexivity|].
  destruct (isspace c); simpl; [exact IH|discriminate].
Qed.

Lemma forallb_rev {A} (f : A -> bool) (l : list A) :
  forallb f (rev l) = forallb f l.
Proof.
  induction l as [|a l IH]; simpl; [reflexivity|].
  rewrite forallb_app, IH; simpl. rewrite andb_true_r. apply andb_comm.
Qed.



Lemma strip_spaces (s : str) :
  forallb isspace s = true -> strip s = [].
Proof.
  intros H. unfold strip. rewrite (lstrip_spaces s H). reflexivity.
Qed.


Lemma str_eqb_eq (a b : str) : str_eqb a b = true <-> a = b.
Proof.
  unfold str_eqb. destruct (str_eq_dec a b); split; congruence.
Qed.

Lemma item_eqb_eq (a b : Item.t) : Item.eqb a b = true <-> a = b.
Proof.
  unfold Item.eqb. destruct (Item.eq_dec a b); split; congruence.
Qed.

(* ------------------------------------------------------------------ *)
(** ** Lists: first match and removal *)

Lemma find_item_loop_some (l : list Item.t) (i : Z) (it : Item.t) :
  find_item_loop l i = Some it <-> first_with_id l i it.
Proof.
  unfold first_with_id. induction l as [|x l IH]; simpl.
  - split; [discriminate|]. intros (l1 & l2 & E & _). destruct l1; discriminate.
  - destruct (Z.eqb_spec (Item.id x) i) as [Hx|Hx].
    + split.
      * intros [= <-]. exists [], l. repeat split; [exact Hx|constructor].
      * intros (l1 & l2 & E & Hi & F). destruct l1 as [|y l1].
        -- simpl in E. congruence.
        -- simpl in E. injection E as <- _. inversion F; subst. contradiction.
    + rewrite IH. split.
      * intros (l1 & l2 & E & Hi & F). exists (x :: l1), l2.
        subst l. repeat split; [exact Hi|constructor; assumption].
      * intros (l1 & l2 & E & Hi & F). destruct l1 as [|y l1].
        -- simpl in E. injection E as -> _. contradiction.
        -- simpl in E. injection E as <- ->. inversion F; subst.
           exists l1, l2. repeat split; assumption.
Qed.

Lemma find_item_loop_none (l : list Item.t) (i : Z) :
  find_item_loop l i = None <-> no_id l i.
Proof.
  unfold no_id. induction l as [|x l IH]; simpl.
  - split; [constructor|reflexivity].
  - destruct (Z.eqb_spec (Item.id x) i) as [Hx|Hx].
    + split; [discriminate|]. intros F. inversion F; subst. contradiction.
    + rewrite IH. split.
      * intros F. constructor; assumption.
      * intros F. inversion F; assumption.
Qed.

(** Removing the first item with a given id takes out that very element:
    no earlier element is equal to it. *)
Lemma list_remove_first (l1 l2 : list Item.t) (it : Item.t) :
  Forall (fun x => Item.id x <> Item.id it) l1 ->
  list_remove it (l1 ++ it :: l2) = Some (l1 ++ l2).
Proof.
  induction l1 as [|x l1 IH]; simpl; intros F.
  - destruct (item_eqb_eq it it) as [_ H]. rewrite H; reflexivity.
  - inversion F as [|? ? Hx F']; subst.
    destruct (Item.eqb x it) eqn:E.
    + apply item_eqb_eq in E. subst x. contradiction.
    + rewrite (IH F'). reflexivity.
Qed.


(* ------------------------------------------------------------------ *)
(** ** What each handler computes *)

Lemma name_taken_true (l : list Item.t) (name : str) :
  name_taken l name = true <->
  exists item,
    In item l /\ normalize_name (Item.name item) = normalize_name name.
Proof.
  unfold name_taken. rewrite existsb_exists.
  split; intros (x & Hin & Hx); exists x; split; try exact Hin;
    apply str_eqb_eq; exact Hx.
Qed.

Lemma name_taken_false (l : list Item.t) (name : str) :
  name_taken l name = false <->
  forall item,
    In item l -> normalize_name (Item.name item) <> normalize_name name.
Proof.
  split.
  - intros H x Hin E.
    assert (T : name_taken l name = true)
      by (apply name_taken_true; exists x; split; assumption).
    congruence.
  - intros H. destruct (name_taken l name) eqn:T; [|reflexivity].
    apply name_taken_true in T. destruct T as (x & Hin & E).
    destruct (H x Hin E).
Qed.

Lemma ensure_unique_name_run (name : str) (w : World) :
  ensure_unique_name name w =
  if name_taken (items (store w)) name
  then (inl DuplicateName, w) else (inr tt, w).
Proof.
  unfold ensure_unique_name, bind, read_items,
    name_taken.
  induction (items (store w)) as [|x l IH]; simpl; [reflexivity|].
  destruct (str_eqb _ _); simpl; [reflexivity|exact IH].
Qed.

Lemma create_item_run (item : ItemCreate.t) (w : World) :
  create_item item w =
  if name_taken (items (store w)) (ItemCreate.name item)
  then (inl DuplicateName, w)
  else (inr (created item w),
        mkWorld
          (mkStore (items (store w) ++ [created item w])
             (next_id (store w) + 1))
          (logged w ++
             [mkLogRecord INFO "Created item id=%d name=%s"
                [ArgInt (next_id (store w));
                 ArgStr (ItemCreate.name item)]])).
Proof.
  unfold create_item, bind at 1.
  rewrite ensure_unique_name_run.
  destruct (name_taken _ _); reflexivity.
Qed.

Lemma get_item_run (item_id : Z) (w : World) :
  get_item item_id w =
  match find_item_loop (items (store w)) item_id with
  | Some item =>
      (inr item,
       mkWorld (store w)
         (logged w ++
            [mkLogRecord INFO "Retrieved item id=%d" [ArgInt (Item.id item)]]))
  | None =>
      (inl NotFound,
       mkWorld (store w)
         (logged w ++
            [mkLogRecord WARNING "Item not found id=%d" [ArgInt item_id]]))
  end.
Proof.
  unfold get_item, find_item, bind, read_items, ret; simpl.
  destruct (find_item_loop _ _); reflexivity.
Qed.

Lemma delete_item_run (item_id : Z) (w : World) :
  delete_item item_id w =
  match find_item_loop (items (store w)) item_id with
  | Some item =>
      let w' :=
        mkWorld (store w)
          (logged w ++
             [mkLogRecord INFO "Deleted item id=%d" [ArgInt (Item.id item)]])
      in
      match list_remove item (items (store w)) with
      | Some l' => (inr tt, mkWorld (mkStore l' (next_id (store w))) (logged w'))
      | None => (inl ValueError, w')
      end
  | None =>
      (inl NotFound,
       mkWorld (store w)
         (logged w ++
            [mkLogRecord WARNING "Item not found for deletion id=%d"
               [ArgInt item_id]]))
  end.
Proof.
  unfold delete_item, find_item, bind, read_items, ret; simpl.
  destruct (find_item_loop _ _); [|reflexivity].
  unfold items_remove, bind, read_items, logger_info; simpl.
  destruct (list_remove _ _); reflexivity.
Qed.

Lemma get_items_run (w : World) :
  get_items w =
  (inr (items (store w)),
   mkWorld (store w)
     (logged w ++
        [mkLogRecord INFO "List items (count=%d)"
           [ArgInt (Z.of_nat (List.length (items (store w))))]])).
Proof. reflexivity. Qed.

(** A delete that finds its item removes it where it was found; the
    [ValueError] of [list.remove] cannot happen. *)
Lemma delete_item_found (item_id : Z) (w : World) (l1 l2 : list Item.t)
  (item : Item.t) :
  items (store w) = l1 ++ item :: l2 ->
  Item.id item = item_id ->
  no_id l1 item_id ->
  delete_item item_id w =
  (inr tt,
   mkWorld (mkStore (l1 ++ l2) (next_id (store w)))
     (logged w ++
        [mkLogRecord INFO "Deleted item id=%d" [ArgInt item_id]])).
Proof.
  intros E Hi F. rewrite delete_item_run.
  assert (Hf : find_item_loop (items (store w)) item_id = Some item).
  { apply find_item_loop_some. exists l1, l2. repeat split; assumption. }
  rewrite Hf, E. subst item_id. rewrite (list_remove_first l1 l2 item F).
  reflexivity.
Qed.

Lemma delete_item_cases (item_id : Z) (w : World) :
  (no_id (items (store w)) item_id
   /\ fst (delete_item item_id w) = inl NotFound
   /\ store (snd (delete_item item_id w)) = store w)
  \/ (exists l1 l2 item,
        items (store w) = l1 ++ item :: l2
        /\ Item.id item = item_id
        /\ no_id l1 item_id
        /\ fst (delete_item item_id w) = inr tt
        /\ store (snd (delete_item item_id w)) =
           mkStore (l1 ++ l2) (next_id (store w))).
Proof.
  destruct (find_item_loop (items (store w)) item_id) as [item|] eqn:Hf.
  - right. apply find_item_loop_some in Hf.
    destruct Hf as (l1 & l2 & E & Hi & F). exists l1, l2, item.
    rewrite (delete_item_found item_id w l1 l2 item E Hi F).
    repeat split; assumption.
  - left. rewrite delete_item_run, Hf. apply find_item_loop_none in Hf.
    repeat split; assumption.
Qed.

(* ------------------------------------------------------------------ *)
(** ** Invariants of the store *)

Lemma unique_names_NoDup (s : Store) :
  unique_names s <-> NoDup (map item_key (items s)).
Proof.
  unfold unique_names. split.
  - intros H. apply NoDup_nth_error. intros i j Hi E.
    rewrite length_map in Hi. rewrite !nth_error_map in E.
    destruct (nth_error (items s) i) as [a|] eqn:A.
    + destruct (nth_error (items s) j) as [b|] eqn:B; [|discriminate].
      simpl in E. injection E as E. exact (H i j a b A B E).
    + apply nth_error_Some in Hi. contradiction.
  - intros ND i j a b A B E.
    apply (proj1 (NoDup_nth_error _) ND).
    + rewrite length_map. apply nth_error_Some. congruence.
    + rewrite !nth_error_map, A, B. simpl. unfold item_key. congruence.
Qed.

Lemma sorted_snoc (l : list Z) (a : Z) :
  StronglySorted Z.lt l -> Forall (fun x => x < a) l ->
  StronglySorted Z.lt (l ++ [a]).
Proof.
  induction 1 as [|x l S IH F]; intros B; simpl.
  - repeat constructor.
  - inversion B; subst. constructor; [apply IH; assumption|].
    apply Forall_app. split; [assumption|]. repeat constructor. assumption.
Qed.

Lemma sorted_remove (l1 l2 : list Z) (a : Z) :
  StronglySorted Z.lt (l1 ++ a :: l2) ->
  StronglySorted Z.lt (l1 ++ l2) /\ ~ In a (l1 ++ l2).
Proof.
  induction l1 as [|x l1 IH]; simpl; intros S.
  - apply StronglySorted_inv in S. destruct S as [S F]. split; [exact S|].
    intros Hin. rewrite Forall_forall in F. specialize (F a Hin). lia.
  - apply StronglySorted_inv in S. destruct S as [S F].
    destruct (IH S) as [S' N]. apply Forall_app in F. destruct F as [F1 F2].
    inversion F2; subst. split.
    + constructor; [exact S'|]. apply Forall_app. split; assumption.
    + intros [->|Hin]; [lia|contradiction].
Qed.

(** The three ways a request leaves the store: untouched, one item
    appended by a create, one item taken out by a delete. *)
Lemma app_store_cases (r : Request) (w : World) :
  store (snd (app r w)) = store w
  \/ (exists item,
        r = POST_items item
        /\ name_taken (items (store w)) (ItemCreate.name item) = false
        /\ store (snd (app r w)) =
           mkStore (items (store w) ++ [created item w])
             (next_id (store w) + 1))
  \/ (exists l1 l2 item,
        r = DELETE_item (Item.id item)
        /\ items (store w) = l1 ++ item :: l2
        /\ no_id l1 (Item.id item)
        /\ store (snd (app r w)) = mkStore (l1 ++ l2) (next_id (store w))).
Proof.
  destruct r as [| |item|i|i]; simpl; unfold respond.
  - left; reflexivity.
  - left; reflexivity.
  - rewrite create_item_run.
    destruct (name_taken _ _) eqn:T; [left; reflexivity|].
    right; left. exists item. repeat split. exact T.
  - rewrite get_item_run. destruct (find_item_loop _ _); left; reflexivity.
  - destruct (delete_item_cases i w)
      as [(_ & R & S)|(l1 & l2 & item & E & Hi & F & R & S)];
      destruct (delete_item i w) as [[e|u] w']; simpl in *.
    + injection R as ->. left; exact S.
    + discriminate.
    + discriminate.
    + right; right. exists l1, l2, item. subst i. repeat split; assumption.
Qed.

Lemma unique_names_step (r : Request) (w : World) :
  unique_names (store w) -> unique_names (store (snd (app r w))).
Proof.
  intros U.
  destruct (app_store_cases r w)
    as [E|[(item & _ & T & E)|(l1 & l2 & item & _ & L & _ & E)]];
    rewrite E; [exact U| |].
  - apply unique_names_NoDup in U. apply unique_names_NoDup. simpl.
    rewrite map_app. apply NoDup_app; [exact U|repeat constructor; intros []|].
    intros k Hk [<-|[]]. apply in_map_iff in Hk. destruct Hk as (x & Hx & Hin).
    rewrite name_taken_false in T. exact (T x Hin Hx).
  - apply unique_names_NoDup in U. apply unique_names_NoDup. simpl.
    rewrite L, map_app in U. simpl in U. rewrite map_app.
    exact (NoDup_remove_1 _ _ _ U).
Qed.

Lemma ids_ok_step (r : Request) (w : World) :
  ids_ok (store w) -> ids_ok (store (snd (app r w))).
Proof.
  intros (S & B & P).
  destruct (app_store_cases r w)
    as [E|[(item & _ & _ & E)|(l1 & l2 & item & _ & L & _ & E)]];
    rewrite E; [repeat split; assumption| |]; repeat split; simpl;
    try lia.
  - rewrite map_app. simpl. apply sorted_snoc; [exact S|].
    apply Forall_map. revert B. apply Forall_impl. intros; lia.
  - apply Forall_app. split.
    + revert B. apply Forall_impl. intros; lia.
    + repeat constructor; simpl; lia.
  - rewrite L, map_app in S. simpl in S. rewrite map_app.
    apply (sorted_remove _ _ _ S).
  - rewrite L in B. apply Forall_app in B. destruct B as [B1 B2].
    inversion B2; subst. apply Forall_app. split; assumption.
Qed.

Lemma retired_step (i : Z) (r : Request) (w : World) :
  retired i (store w) -> retired i (store (snd (app r w))).
Proof.
  intros [B F].
  destruct (app_store_cases r w)
    as [E|[(item & _ & _ & E)|(l1 & l2 & item & _ & L & _ & E)]];
    rewrite E; [split; assumption| |]; split; simpl; try lia.
  - apply Forall_app. split; [exact F|]. repeat constructor. simpl. lia.
  - rewrite L in F. apply Forall_app in F. destruct F as [F1 F2].
    inversion F2; subst. apply Forall_app. split; assumption.
Qed.

Lemma serve_app (rs1 rs2 : list Request) (w : World) :
  serve (rs1 ++ rs2) w = serve rs2 (serve rs1 w).
Proof.
  revert w. induction rs1 as [|r rs1 IH]; intros w; simpl;
    [reflexivity|apply IH].
Qed.

(** A property of the store that every request keeps is kept by every
    sequence of requests. *)
Lemma serve_preserves (P : Store -> Prop) :
  (forall r w, P (store w) -> P (store (snd (app r w)))) ->
  forall rs w, P (store w) -> P (store (serve rs w)).
Proof.
  intros Step rs. induction rs as [|r rs IH]; intros w H; simpl;
    [exact H|]. apply IH, Step, H.
Qed.

Lemma unique_names_initial : unique_names initial_store.
Proof.
  intros i j a b A. destruct i; discriminate.
Qed.

Lemma ids_ok_initial : ids_ok initial_store.
Proof.
  repeat split; simpl; try constructor; lia.
Qed.

Lemma ids_ok_reachable (rs : list Request) :
  ids_ok (store (serve rs initial_world)).
Proof.
  apply serve_preserves; [exact ids_ok_step|exact ids_ok_initial].
Qed.

(** Once a delete has succeeded in a store with ordered ids, its id is
    retired. *)
Lemma delete_retires (i : Z) (w : World) :
  ids_ok (store w) ->
  fst (delete_item i w) = inr tt ->
  retired i (store (snd (delete_item i w))).
Proof.
  intros (S & B & _) R.
  destruct (delete_item_cases i w)
    as [(_ & R' & _)|(l1 & l2 & item & L & Hi & _ & _ & E)];
    [congruence|].
  rewrite E. rewrite L in S, B. split; simpl.
  - apply Forall_app in B. destruct B as [_ B]. inversion B; subst. lia.
  - rewrite map_app in S. simpl in S. apply sorted_remove in S.
    destruct S as [_ N]. rewrite <- map_app in N. apply Forall_forall.
    intros x Hx Ex. apply N. rewrite Hi, <- Ex. apply in_map. exact Hx.
Qed.

(* ------------------------------------------------------------------ *)
(** ** Creating a sequence of items *)



Lemma app_create_free (item : ItemCreate.t) (w : World) :
  name_taken (items (store w)) (ItemCreate.name item) = false ->
  fst (app (POST_items item) w) = create_answer (created item w)
  /\ snd (app (POST_items item) w) = snd (create_item item w)
  /\ fst (create_item item w) = inr (created item w)
  /\ items (store (snd (create_item item w))) =
     items (store w) ++ [created item w]
  /\ next_id (store (snd (create_item item w))) = next_id (store w) + 1.
Proof.
  intros T. cbn [app]. unfold respond. rewrite create_item_run, T.
  repeat split.
Qed.




(* ------------------------------------------------------------------ *)
(** ** The store under requests *)

(** C2. After every sequence of requests served from the empty store no
    two stored items have names that normalize to the same value, and each
    request (health, list, create, get, delete) keeps that property of
    whatever store it runs in. *)
Theorem unique_names_invariant :
  (forall rs, unique_names (store (serve rs initial_world)))
  /\ (forall r w,
        unique_names (store w) -> unique_names (store (snd (app r w)))).
Proof.
  split.
  - intros rs. apply serve_preserves;
      [exact unique_names_step|exact unique_names_initial].
  - exact unique_names_step.
Qed.

(** C3. A create raises the 400 "Item with this name already exists"
    exactly when a stored item has the normalized name of the candidate;
    it raises nothing else; when it raises, the item list and the counter
    are as before; when it returns, exactly its item has been appended and
    the counter is one more. *)
Theorem create_item_duplicate_iff (item : ItemCreate.t) (w : World) :
  (fst (create_item item w) = inl DuplicateName <->
   exists x, In x (items (store w)) /\ item_key x = body_key item)
  /\ (fst (app (POST_items item) w) = duplicate_response <->
      exists x, In x (items (store w)) /\ item_key x = body_key item)
  /\ (forall e,
        fst (create_item item w) = inl e ->
        e = DuplicateName
        /\ items (store (snd (create_item item w))) = items (store w)
        /\ next_id (store (snd (create_item item w))) = next_id (store w))
  /\ (forall new_item,
        fst (create_item item w) = inr new_item ->
        items (store (snd (create_item item w))) =
        items (store w) ++ [new_item]
        /\ next_id (store (snd (create_item item w))) =
           next_id (store w) + 1
        /\ Item.id new_item = next_id (store w)).
Proof.
  cbn [app]. unfold respond. rewrite create_item_run.
  pose proof (name_taken_true (items (store w)) (ItemCreate.name item)) as T.
  fold (body_key item) in T.
  destruct (name_taken _ _); cbn [fst snd store items next_id].
  - destruct T as [T _]. specialize (T eq_refl).
    split; [split; [intros _; exact T|intros _; reflexivity]|].
    split; [split; [intros _; exact T|intros _; reflexivity]|].
    split.
    + intros e [= <-]. repeat split.
    + intros new_item C. discriminate C.
  - assert (N : ~ exists x, In x (items (store w))
                          /\ item_key x = body_key item).
    { intros H. apply T in H. discriminate. }
    split; [split; [discriminate|intros H; destruct (N H)]|].
    split; [split; [|intros H; destruct (N H)]|].
    { unfold render, server_error_response.
      destruct (body_encodable _); discriminate. }
    split.
    + intros e C. discriminate C.
    + intros new_item [= <-]. repeat split.
Qed.


(** C6. A delete of an id that no stored item has raises the 404 "Item not
    found" and leaves the item list and the counter as they were. *)
Theorem delete_item_absent (item_id : Z) (w : World) :
  no_id (items (store w)) item_id ->
  fst (delete_item item_id w) = inl NotFound
  /\ fst (app (DELETE_item item_id) w) = not_found_response
  /\ items (store (snd (delete_item item_id w))) = items (store w)
  /\ next_id (store (snd (delete_item item_id w))) = next_id (store w).
Proof.
  intros H. apply find_item_loop_none in H.
  cbn [app]. unfold respond. rewrite delete_item_run, H.
  repeat split.
Qed.

(** A retired id is not found, and no create is given it. *)
Lemma retired_get (i : Z) (w : World) :
  retired i (store w) ->
  fst (get_item i w) = inl NotFound
  /\ fst (app (GET_item i) w) = not_found_response.
Proof.
  intros [_ F]. cbn [app]. unfold respond. rewrite get_item_run.
  apply find_item_loop_none in F. rewrite F. split; reflexivity.
Qed.

Lemma retired_create (i : Z) (w : World) (item : ItemCreate.t)
  (new_item : Item.t) :
  retired i (store w) ->
  fst (create_item item w) = inr new_item ->
  Item.id new_item <> i.
Proof.
  intros [B _] C. rewrite create_item_run in C.
  destruct (name_taken _ _); [discriminate|].
  injection C as <-. simpl. lia.
Qed.

(** C7. Take a create that succeeded at some point of a run from the empty
    store, and a later delete of the id it assigned that succeeded.  From
    then on, whatever requests follow, a get of that id raises the 404
    "Item not found", and a create that succeeds is given another id. *)
Theorem deleted_id_never_reused
  (before between later : list Request) (item : ItemCreate.t)
  (new_item : Item.t) :
  let w := serve before initial_world in
  fst (create_item item w) = inr new_item ->
  let w' := serve between (snd (create_item item w)) in
  fst (delete_item (Item.id new_item) w') = inr tt ->
  let w'' := serve later (snd (delete_item (Item.id new_item) w')) in
  fst (get_item (Item.id new_item) w'') = inl NotFound
  /\ fst (app (GET_item (Item.id new_item)) w'') = not_found_response
  /\ (forall item' new_item',
        fst (create_item item' w'') = inr new_item' ->
        Item.id new_item' <> Item.id new_item).
Proof.
  intros w C w' D w''.
  assert (Ok : ids_ok (store w')).
  { unfold w'.
    replace (snd (create_item item w)) with (snd (app (POST_items item) w)).
    - change (snd (app (POST_items item) w))
        with (serve [POST_items item] w).
      unfold w. rewrite <- !serve_app. apply ids_ok_reachable.
    - cbn [app]. unfold respond.
      destruct (create_item item w) as [[e|x] w1]; [discriminate|].
      reflexivity. }
  assert (R : retired (Item.id new_item) (store w'')).
  { unfold w''. apply (serve_preserves (retired (Item.id new_item))).
    - intros r w0. apply retired_step.
    - apply delete_retires; assumption. }
  destruct (retired_get _ _ R) as [G1 G2].
  repeat split; try assumption.
  intros item' new_item' C'. exact (retired_create _ _ _ _ R C').
Qed.


(** C9. A delete that succeeds takes out one element of the item list, the
    first with the requested id, and keeps the elements before and after
    it as they were and in their order; the counter is not changed.  In a
    store with ordered ids, as every store reached from the empty one is,
    no other item had that id: what remains is the list without the items
    of that id. *)
Theorem delete_item_removes_one (item_id : Z) (w : World) :
  fst (delete_item item_id w) = inr tt ->
  exists l1 item l2,
    items (store w) = l1 ++ item :: l2
    /\ Item.id item = item_id
    /\ no_id l1 item_id
    /\ items (store (snd (delete_item item_id w))) = l1 ++ l2
    /\ next_id (store (snd (delete_item item_id w))) = next_id (store w)
    /\ fst (app (DELETE_item item_id) w) = mkResponse 204 NoBody
    /\ (ids_ok (store w) ->
        no_id l2 item_id
        /\ items (store (snd (delete_item item_id w))) =
           filter (fun x => negb (Item.id x =? item_id)) (items (store w))).
Proof.
  intros D.
  destruct (delete_item_cases item_id w)
    as [(_ & R & _)|(l1 & l2 & item & L & Hi & F & _ & E)];
    [congruence|].
  exists l1, item, l2. rewrite E. cbn [items next_id].
  repeat split; try assumption.
  - cbn [app]. unfold respond.
    destruct (delete_item item_id w) as [[e|[]] w1]; [discriminate|].
    reflexivity.
  - destruct H as (S & _). rewrite L, map_app in S. simpl in S.
    apply sorted_remove in S. destruct S as [_ N].
    apply Forall_forall. intros x Hx Ex. apply N. rewrite <- map_app.
    rewrite Hi, <- Ex. apply in_map, in_or_app. right; exact Hx.
  - destruct H as (S & _). rewrite L, map_app in S. simpl in S.
    apply sorted_remove in S. destruct S as [_ N].
    assert (Keep : forall l, ~ In item_id (map Item.id l) ->
              filter (fun x => negb (Item.id x =? item_id)) l = l).
    { induction l as [|x l IH]; simpl; intros Hn; [reflexivity|].
      destruct (Z.eqb_spec (Item.id x) item_id) as [Ex|Ex]; simpl.
      - destruct Hn. left; exact Ex.
      - rewrite IH; [reflexivity|]. intros Hin. apply Hn. right; exact Hin. }
    rewrite L, filter_app. simpl. rewrite (proj2 (Z.eqb_eq _ _) Hi). simpl.
    rewrite Hi, in_app_iff in N.
    rewrite !Keep; [reflexivity| |]; intros Hin; apply N; tauto.
Qed.

(* ------------------------------------------------------------------ *)
(** ** Names: compared normalized, stored as given *)



Section LowerAscii.

(** On a text of ASCII code points [str.lower] maps [A]..[Z] to [a]..[z]
    and keeps the rest. *)
Hypothesis lower_ascii :
  forall s, forallb is_ascii s = true -> lower s = ascii_lower s.



End LowerAscii.

Lemma isspace_not_surrogate (c : N) :
  isspace c = true -> is_surrogate c = false.
Proof.
  unfold isspace, is_surrogate. intros H.
  assert (c <= 0x3000)%N.
  { repeat (apply orb_prop in H; destruct H as [H|H]);
      try (apply andb_prop in H; destruct H as [_ H]; apply N.leb_le in H);
      try (apply N.eqb_eq in H); lia. }
  apply andb_false_intro1. apply N.leb_gt. lia.
Qed.

(** A name that is empty or all white space can be encoded. *)
Lemma blank_encodable (s : str) :
  forallb isspace s = true -> str_encodable s = true.
Proof.
  unfold str_encodable. induction s as [|c s IH]; cbn [forallb];
    [reflexivity|].
  intros H. apply andb_prop in H. destruct H as [Hc Hs].
  rewrite (isspace_not_surrogate c Hc), (IH Hs). reflexivity.
Qed.

Section LowerEmpty.

(** The lowercase of the empty string is the empty string. *)
Hypothesis lower_nil : lower [] = [].

Lemma blank_key (s : str) :
  forallb isspace s = true -> normalize_name s = [].
Proof.
  intros H. unfold normalize_name. rewrite (strip_spaces s H).
  exact lower_nil.
Qed.

(** C10. A create checks nothing about a name but that no stored item
    has its normalized name: when none has, its handler returns and stores
    the name as sent, whatever the name.  A name that is empty or all white
    space normalizes to the empty string; it is accepted when no stored
    name does, the item being stored with the name as sent and the request
    answered 201 (a description that holds a lone surrogate apart: then the
    answer is the 500); and once a stored name is empty or all white space,
    a create of any such name raises the 400 of a duplicate name. *)
Theorem blank_names_collide :
  (forall item w,
     (forall x, In x (items (store w)) -> item_key x <> body_key item) ->
     fst (create_item item w) = inr (created item w)
     /\ Item.name (created item w) = ItemCreate.name item
     /\ items (store (snd (create_item item w))) =
        items (store w) ++ [created item w])
  /\ (forall s, forallb isspace s = true -> normalize_name s = [])
  /\ (forall item w,
        forallb isspace (ItemCreate.name item) = true ->
        (forall x, In x (items (store w)) -> item_key x <> []) ->
        fst (create_item item w) = inr (created item w)
        /\ Item.name (created item w) = ItemCreate.name item
        /\ items (store (snd (create_item item w))) =
           items (store w) ++ [created item w]
        /\ fst (app (POST_items item) w) = create_answer (created item w)
        /\ (description_encodable (ItemCreate.description item) = true ->
            fst (app (POST_items item) w) =
            created_response (created item w)))
  /\ (forall item w x,
        forallb isspace (ItemCreate.name item) = true ->
        In x (items (store w)) ->
        forallb isspace (Item.name x) = true ->
        fst (create_item item w) = inl DuplicateName
        /\ fst (app (POST_items item) w) = duplicate_response
        /\ store (snd (create_item item w)) = store w).
Proof.
  assert (Free : forall item w,
    (forall x, In x (items (store w)) -> item_key x <> body_key item) ->
    create_item item w =
    (inr (created item w), snd (create_item item w))
    /\ items (store (snd (create_item item w))) =
       items (store w) ++ [created item w]).
  { intros item w N. apply name_taken_false in N.
    rewrite create_item_run, N. split; reflexivity. }
  split; [|split; [exact blank_key|split]].
  - intros item w N. destruct (Free item w N) as [E L].
    rewrite E at 1. repeat split. exact L.
  - intros item w B N.
    assert (N' : forall x, In x (items (store w)) ->
                           item_key x <> body_key item).
    { intros x Hin. unfold body_key. rewrite (blank_key _ B).
      exact (N x Hin). }
    apply name_taken_false in N'.
    destruct (app_create_free item w N') as (A1 & _ & C & L & _).
    split; [exact C|]. split; [reflexivity|]. split; [exact L|].
    split; [exact A1|].
    intros D. rewrite A1. unfold create_answer, item_encodable, created.
    cbn [Item.name Item.description].
    rewrite (blank_encodable _ B), D. reflexivity.
  - intros item w x B Hin Bx.
    assert (T : name_taken (items (store w)) (ItemCreate.name item) = true).
    { apply name_taken_true. exists x. split; [exact Hin|].
      rewrite (blank_key _ B). exact (blank_key _ Bx). }
    cbn [app]. unfold respond. rewrite create_item_run, T.
    repeat split.
Qed.

End LowerEmpty.

(* ------------------------------------------------------------------ *)
(** ** Responses, status codes and the log *)

Lemma app_create_run (item : ItemCreate.t) (w : World) :
  app (POST_items item) w =
  if name_taken (items (store w)) (ItemCreate.name item)
  then (duplicate_response, w)
  else (create_answer (created item w),
        mkWorld
          (mkStore (items (store w) ++ [created item w])
             (next_id (store w) + 1))
          (logged w ++
             [mkLogRecord INFO "Created item id=%d name=%s"
                [ArgInt (next_id (store w));
                 ArgStr (ItemCreate.name item)]])).
Proof.
  cbn [app]. unfold respond. rewrite create_item_run.
  destruct (name_taken _ _); reflexivity.
Qed.

Lemma app_get_run (item_id : Z) (w : World) :
  app (GET_item item_id) w =
  match find_item_loop (items (store w)) item_id with
  | Some item =>
      (get_answer item,
       mkWorld (store w)
         (logged w ++
            [mkLogRecord INFO "Retrieved item id=%d" [ArgInt (Item.id item)]]))
  | None =>
      (not_found_response,
       mkWorld (store w)
         (logged w ++
            [mkLogRecord WARNING "Item not found id=%d" [ArgInt item_id]]))
  end.
Proof.
  cbn [app]. unfold respond. rewrite get_item_run.
  destruct (find_item_loop _ _); reflexivity.
Qed.

Lemma app_delete_cases (item_id : Z) (w : World) :
  (no_id (items (store w)) item_id
   /\ app (DELETE_item item_id) w =
      (not_found_response,
       mkWorld (store w)
         (logged w ++
            [mkLogRecord WARNING "Item not found for deletion id=%d"
               [ArgInt item_id]])))
  \/ (exists l1 l2 item,
        items (store w) = l1 ++ item :: l2
        /\ Item.id item = item_id
        /\ no_id l1 item_id
        /\ app (DELETE_item item_id) w =
           (mkResponse 204 NoBody,
            mkWorld (mkStore (l1 ++ l2) (next_id (store w)))
              (logged w ++
                 [mkLogRecord INFO "Deleted item id=%d" [ArgInt item_id]]))).
Proof.
  cbn [app]. unfold respond.
  destruct (find_item_loop (items (store w)) item_id) as [item|] eqn:Hf.
  - right. apply find_item_loop_some in Hf.
    destruct Hf as (l1 & l2 & E & Hi & F). exists l1, l2, item.
    rewrite (delete_item_found item_id w l1 l2 item E Hi F).
    repeat split; assumption.
  - left. rewrite delete_item_run, Hf. apply find_item_loop_none in Hf.
    split; [exact Hf|reflexivity].
Qed.

Lemma app_same_store (r : Request) (w v : World) :
  store w = store v ->
  fst (app r w) = fst (app r v)
  /\ store (snd (app r w)) = store (snd (app r v)).
Proof.
  intros E. destruct r as [| |item|i|i].
  - split; [reflexivity|exact E].
  - cbn [app]. unfold respond. rewrite !get_items_run. cbn [fst snd store].
    rewrite E. split; reflexivity.
  - rewrite !app_create_run, E. unfold created. rewrite E.
    destruct (name_taken _ _); cbn [fst snd store]; split;
      try reflexivity; exact E.
  - rewrite !app_get_run, E.
    destruct (find_item_loop _ _); split; reflexivity.
  - cbn [app]. unfold respond. rewrite !delete_item_run, E.
    destruct (find_item_loop _ _) as [item|]; [|split; reflexivity].
    cbn zeta. destruct (list_remove _ _); split; reflexivity.
Qed.

(** X1. What is logged has no influence on what is served: from two
    worlds with the same store, whatever their logs, a sequence of requests
    gets the same responses and ends in the same store. *)
Theorem log_does_not_matter (rs : list Request) (w v : World) :
  store w = store v ->
  responses rs w = responses rs v
  /\ store (serve rs w) = store (serve rs v).
Proof.
  revert w v. induction rs as [|r rs IH]; intros w v E.
  - split; [reflexivity|exact E].
  - destruct (app_same_store r w v E) as [R S].
    destruct (IH _ _ S) as [R' S']. cbn [responses serve].
    rewrite R, R'. split; [reflexivity|exact S'].
Qed.




Lemma read_keeps_store (r : Request) (w : World) :
  is_read r = true -> store (snd (app r w)) = store w.
Proof.
  destruct r as [| |item|i|i]; try discriminate; intros _.
  - reflexivity.
  - reflexivity.
  - rewrite app_get_run. destruct (find_item_loop _ _); reflexivity.
Qed.

Lemma writes_only (rs : list Request) :
  forall w v,
    store w = store v ->
    store (serve (filter (fun r => negb (is_read r)) rs) v)
    = store (serve rs w)
    /\ responses (filter (fun r => negb (is_read r)) rs) v
       = map snd
           (filter (fun p => negb (is_read (fst p)))
              (combine rs (responses rs w))).
Proof.
  induction rs as [|r rs IH]; intros w v E.
  - split; [symmetry; exact E|reflexivity].
  - cbn [filter responses serve combine fst].
    destruct (is_read r) eqn:Hr; cbn [negb].
    + apply IH. rewrite (read_keeps_store r w Hr). exact E.
    + destruct (app_same_store r w v E) as [R S].
      destruct (IH _ _ S) as [S' R'].
      cbn [serve responses map snd]. rewrite R, R'.
      split; [exact S'|reflexivity].
Qed.

(** X3. Health, list and get requests only read: taking them out of a
    sequence of requests changes neither the store it ends in nor the
    response to any create or delete of the sequence. *)
Theorem reads_are_transparent (rs : list Request) (w : World) :
  store (serve (filter (fun r => negb (is_read r)) rs) w)
  = store (serve rs w)
  /\ responses (filter (fun r => negb (is_read r)) rs) w
     = map snd
         (filter (fun p => negb (is_read (fst p))) (exchanges rs w)).
Proof.
  apply writes_only. reflexivity.
Qed.

(** X4. A health check touches neither the store nor the log, whatever
    it answers: taking the health checks out of a sequence of requests
    changes neither the world it ends in nor any other response. *)
Theorem health_checks_are_invisible (rs : list Request) (w : World) :
  serve (filter (fun r => negb (is_health r)) rs) w = serve rs w
  /\ responses (filter (fun r => negb (is_health r)) rs) w
     = map snd
         (filter (fun p => negb (is_health (fst p))) (exchanges rs w)).
Proof.
  unfold exchanges. revert w.
  induction rs as [|r rs IH]; intros w; [split; reflexivity|].
  cbn [filter responses serve combine fst].
  destruct (is_health r) eqn:Hr; cbn [negb].
  - destruct r; try discriminate. apply IH.
  - destruct (IH (snd (app r w))) as [S R].
    cbn [serve responses map snd]. rewrite S, R. split; reflexivity.
Qed.








(* ------------------------------------------------------------------ *)
(** ** Create, get and delete together *)

Lemma find_item_loop_snoc (l : list Item.t) (y x : Item.t) (i : Z) :
  find_item_loop l i = Some x -> find_item_loop (l ++ [y]) i = Some x.
Proof.
  induction l as [|z l IH]; cbn [find_item_loop List.app]; [discriminate|].
  destruct (Item.id z =? i); [intros E; exact E|exact IH].
Qed.

Lemma find_item_loop_new (l : list Item.t) (y : Item.t) :
  no_id l (Item.id y) -> find_item_loop (l ++ [y]) (Item.id y) = Some y.
Proof.
  intros F. apply find_item_loop_some. exists l, [].
  split; [reflexivity|]. split; [reflexivity|exact F].
Qed.

Lemma find_item_loop_remove (l1 l2 : list Item.t) (y : Item.t) (i : Z) :
  Item.id y <> i ->
  find_item_loop (l1 ++ l2) i = find_item_loop (l1 ++ y :: l2) i.
Proof.
  intros N. induction l1 as [|z l1 IH]; cbn [find_item_loop List.app].
  - destruct (Z.eqb_spec (Item.id y) i); [contradiction|reflexivity].
  - destruct (Item.id z =? i); [reflexivity|exact IH].
Qed.

(** An item that is found stays found by every request but a delete of
    its id. *)
Lemma found_step (r : Request) (w : World) (i : Z) (x : Item.t) :
  r <> DELETE_item i ->
  find_item_loop (items (store w)) i = Some x ->
  find_item_loop (items (store (snd (app r w)))) i = Some x.
Proof.
  intros N F.
  destruct (app_store_cases r w)
    as [E|[(item & _ & _ & E)|(l1 & l2 & item & Er & L & _ & E)]];
    rewrite E; cbn [items].
  - exact F.
  - apply find_item_loop_snoc. exact F.
  - rewrite (find_item_loop_remove l1 l2 item i), <- L; [exact F|].
    intros Ei. apply N. rewrite Er, Ei. reflexivity.
Qed.

Lemma sorted_before (l1 l2 : list Z) (a : Z) :
  StronglySorted Z.lt (l1 ++ a :: l2) -> Forall (fun y => y < a) l1.
Proof.
  induction l1 as [|x l1 IH]; cbn [List.app]; intros S; [constructor|].
  apply StronglySorted_inv in S. destruct S as [S F].
  constructor; [|exact (IH S)].
  rewrite Forall_forall in F. apply F, in_or_app. right; left; reflexivity.
Qed.

(** In a store with ordered ids an item is the one found under its id. *)
Lemma stored_item_found (s : Store) (x : Item.t) :
  ids_ok s -> In x (items s) ->
  find_item_loop (items s) (Item.id x) = Some x.
Proof.
  intros (S & _) Hin. apply in_split in Hin. destruct Hin as (l1 & l2 & L).
  apply find_item_loop_some. exists l1, l2.
  split; [exact L|]. split; [reflexivity|].
  rewrite L, map_app in S. cbn [map] in S. apply sorted_before in S.
  apply Forall_forall. intros y Hy E.
  rewrite Forall_forall in S. specialize (S (Item.id y) (in_map _ _ _ Hy)).
  lia.
Qed.

Lemma fresh_id_absent (s : Store) : ids_ok s -> no_id (items s) (next_id s).
Proof.
  intros (_ & B & _). revert B. apply Forall_impl. intros x Hx. lia.
Qed.

Lemma unique_names_reachable (rs : list Request) :
  unique_names (store (serve rs initial_world)).
Proof.
  apply serve_preserves; [exact unique_names_step|exact unique_names_initial].
Qed.

(** X7. What is created can be read back: after a create whose handler
    returned, in a store with ordered ids, and after any further requests
    that do not delete the id it assigned, the handler of a get of that id
    returns exactly the created item, which carries the name and the
    description of the request.  The get is answered 200 with that item,
    unless the request held a lone surrogate: then it is answered with the
    500. *)
Theorem get_after_create (item : ItemCreate.t) (w : World)
  (new_item : Item.t) (rs : list Request) :
  ids_ok (store w) ->
  fst (create_item item w) = inr new_item ->
  Forall (fun r => r <> DELETE_item (Item.id new_item)) rs ->
  let w' := serve rs (snd (create_item item w)) in
  fst (get_item (Item.id new_item) w') = inr new_item
  /\ fst (app (GET_item (Item.id new_item)) w') = get_answer new_item
  /\ (request_encodable item = true ->
      fst (app (GET_item (Item.id new_item)) w')
      = mkResponse 200 (ItemBody new_item))
  /\ Item.name new_item = ItemCreate.name item
  /\ Item.description new_item = ItemCreate.description item.
Proof.
  intros Ok C Keep w'.
  assert (F0 : find_item_loop (items (store (snd (create_item item w))))
                 (Item.id new_item) = Some new_item
               /\ new_item = created item w).
  { rewrite create_item_run in C |- *.
    destruct (name_taken _ _); [discriminate|]. injection C as <-.
    split; [|reflexivity]. cbn [snd store items].
    apply find_item_loop_new. exact (fresh_id_absent _ Ok). }
  destruct F0 as [F0 E].
  assert (F : find_item_loop (items (store w')) (Item.id new_item)
              = Some new_item).
  { unfold w'. revert F0. generalize (snd (create_item item w)).
    induction Keep as [|r rs Hr _ IH]; intros w0 F0; [exact F0|].
    cbn [serve]. apply IH. apply found_step; assumption. }
  rewrite app_get_run, get_item_run, F. cbn [fst].
  split; [reflexivity|]. split; [reflexivity|].
  split; [|subst new_item; split; reflexivity].
  intros En. unfold get_answer.
  replace (item_encodable new_item) with (request_encodable item)
    by (subst new_item; reflexivity).
  rewrite En. reflexivity.
Qed.

(** X8. The list and the gets agree.  In every store reached from the
    empty one the stored ids are pairwise distinct, at least 1 and below
    the counter; the handler of a get of a listed item's id returns that
    very item, and the get is answered 200 with it unless the item holds a
    lone surrogate (then with the 500); and a get of an id that no listed
    item has is answered with the 404. *)
Theorem listed_items_retrievable (rs : list Request) :
  let w := serve rs initial_world in
  NoDup (map Item.id (items (store w)))
  /\ (forall x,
        In x (items (store w)) ->
        1 <= Item.id x < next_id (store w)
        /\ fst (get_item (Item.id x) w) = inr x
        /\ fst (app (GET_item (Item.id x)) w) = get_answer x
        /\ (item_encodable x = true ->
            fst (app (GET_item (Item.id x)) w)
            = mkResponse 200 (ItemBody x)))
  /\ (forall i,
        ~ In i (map Item.id (items (store w))) ->
        fst (app (GET_item i) w) = not_found_response).
Proof.
  intros w. pose proof (ids_ok_reachable rs) as Ok. fold w in Ok.
  split; [|split].
  - destruct Ok as (S & _). revert S.
    generalize (map Item.id (items (store w))).
    induction 1 as [|a l S IH F]; constructor; [|exact IH].
    intros Hin. rewrite Forall_forall in F. specialize (F a Hin). lia.
  - intros x Hin. split.
    + destruct Ok as (_ & B & _). rewrite Forall_forall in B.
      exact (B x Hin).
    + rewrite app_get_run, get_item_run, (stored_item_found _ x Ok Hin).
      cbn [fst]. split; [reflexivity|]. split; [reflexivity|].
      intros En. unfold get_answer. rewrite En. reflexivity.
  - intros i N. rewrite app_get_run.
    destruct (find_item_loop (items (store w)) i) as [x|] eqn:F;
      [|reflexivity].
    apply find_item_loop_some in F. destruct F as (l1 & l2 & L & Hi & _).
    destruct N. rewrite L, <- Hi. apply in_map, in_or_app.
    right; left; reflexivity.
Qed.

(** X9. A name is free again once its item is deleted.  In every store
    reached from the empty one, the delete of a stored item's id is
    answered 204, and the handler of a create with that item's name then
    returns, whatever the description, an item under the id of the
    counter, which is not the deleted id.  That create is answered 201,
    unless name or description holds a lone surrogate (then with the
    500). *)
Theorem name_free_after_delete (rs : list Request) (x : Item.t)
  (d : option str) :
  let w := serve rs initial_world in
  In x (items (store w)) ->
  let w' := snd (app (DELETE_item (Item.id x)) w) in
  let new_item := Item.mk (next_id (store w)) (Item.name x) d in
  fst (app (DELETE_item (Item.id x)) w) = mkResponse 204 NoBody
  /\ fst (create_item (ItemCreate.mk (Item.name x) d) w') = inr new_item
  /\ fst (app (POST_items (ItemCreate.mk (Item.name x) d)) w')
     = create_answer new_item
  /\ (item_encodable new_item = true ->
      fst (app (POST_items (ItemCreate.mk (Item.name x) d)) w')
      = created_response new_item)
  /\ next_id (store w) <> Item.id x.
Proof.
  intros w Hin w' new_item.
  pose proof (ids_ok_reachable rs) as Ok. fold w in Ok.
  pose proof (unique_names_reachable rs) as U. fold w in U.
  pose proof (stored_item_found _ x Ok Hin) as F.
  destruct (app_delete_cases (Item.id x) w)
    as [(N & _)|(l1 & l2 & y & L & Hi & Fy & E)].
  { apply find_item_loop_none in N. congruence. }
  assert (y = x).
  { assert (Fy' : find_item_loop (items (store w)) (Item.id x) = Some y)
      by (apply find_item_loop_some; exists l1, l2; repeat split; assumption).
    congruence. }
  subst y. unfold w'. rewrite E. cbn [fst snd].
  assert (T : name_taken (l1 ++ l2) (Item.name x) = false).
  { apply name_taken_false. intros z Hz Ez.
    apply unique_names_NoDup in U. rewrite L, map_app in U.
    cbn [map] in U. apply NoDup_remove_2 in U. apply U.
    rewrite <- map_app. unfold item_key at 1. rewrite <- Ez.
    apply (in_map item_key). exact Hz. }
  split; [reflexivity|].
  rewrite app_create_run, create_item_run.
  cbn [store items next_id ItemCreate.name]. rewrite T. cbn [fst].
  split; [reflexivity|]. split; [reflexivity|]. split.
  - intros En. unfold create_answer.
    change (created _ _) with new_item. rewrite En. reflexivity.
  - destruct Ok as (_ & B & _). rewrite Forall_forall in B.
    specialize (B x Hin). lia.
Qed.

(** X10. An id is deleted at most once.  After a delete answered 204 in a
    store with ordered ids, and after any further requests, a delete of
    the same id answers the 404 and leaves the store as it is. *)
Theorem delete_only_once (i : Z) (w : World) (rs : list Request) :
  ids_ok (store w) ->
  fst (delete_item i w) = inr tt ->
  let w' := serve rs (snd (delete_item i w)) in
  fst (app (DELETE_item i) w') = not_found_response
  /\ store (snd (app (DELETE_item i) w')) = store w'.
Proof.
  intros Ok D w'.
  assert (R : retired i (store w')).
  { unfold w'. apply (serve_preserves (retired i)).
    - intros r w0. apply retired_step.
    - apply delete_retires; assumption. }
  destruct R as [_ N].
  destruct (app_delete_cases i w')
    as [(_ & E)|(l1 & l2 & y & L & Hi & _ & _)].
  - rewrite E. split; reflexivity.
  - exfalso. unfold no_id in N. rewrite L in N. apply Forall_app in N.
    destruct N as [_ N]. inversion N; subst. contradiction.
Qed.

(* ------------------------------------------------------------------ *)
(** ** Names that differ by white space or by case *)

Lemma lstrip_app_spaces (pre t : str) :
  forallb isspace pre = true -> lstrip (pre ++ t) = lstrip t.
Proof.
  induction pre as [|c pre IH]; cbn [forallb List.app lstrip];
    [reflexivity|].
  destruct (isspace c); [exact IH|discriminate].
Qed.

Lemma lstrip_app (s t : str) :
  lstrip (s ++ t) = if forallb isspace s then lstrip t else lstrip s ++ t.
Proof.
  induction s as [|c s IH]; cbn [forallb List.app lstrip]; [reflexivity|].
  destruct (isspace c); [exact IH|reflexivity].
Qed.

Lemma rstrip_app_spaces (t post : str) :
  forallb isspace post = true -> rstrip (t ++ post) = rstrip t.
Proof.
  intros H. unfold rstrip. rewrite rev_app_distr, lstrip_app_spaces;
    [reflexivity|]. rewrite forallb_rev. exact H.
Qed.

Lemma strip_padding (pre s post : str) :
  forallb isspace pre = true -> forallb isspace post = true ->
  strip (pre ++ s ++ post) = strip s.
Proof.
  intros Hpre Hpost. unfold strip.
  rewrite (lstrip_app_spaces pre _ Hpre), lstrip_app.
  destruct (forallb isspace s) eqn:Hs.
  - rewrite (lstrip_spaces post Hpost), (lstrip_spaces s Hs). reflexivity.
  - apply rstrip_app_spaces. exact Hpost.
Qed.

(** X11. White space around a name does not count.  For every
    [str.lower], a name and the same name with white space put before and
    after it normalize to the same value; so a create of the padded name
    while an item with the plain name is stored, or of the plain name
    while the padded one is stored, is answered with the 400 of a
    duplicate name. *)
Theorem padding_is_ignored (pre s post : str) :
  forallb isspace pre = true ->
  forallb isspace post = true ->
  normalize_name (pre ++ s ++ post) = normalize_name s
  /\ (forall w x d,
        In x (items (store w)) ->
        Item.name x = s ->
        fst (app (POST_items (ItemCreate.mk (pre ++ s ++ post) d)) w)
        = duplicate_response)
  /\ (forall w x d,
        In x (items (store w)) ->
        Item.name x = pre ++ s ++ post ->
        fst (app (POST_items (ItemCreate.mk s d)) w) = duplicate_response).
Proof.
  intros Hpre Hpost.
  assert (K : normalize_name (pre ++ s ++ post) = normalize_name s).
  { unfold normalize_name. rewrite (strip_padding pre s post Hpre Hpost).
    reflexivity. }
  split; [exact K|]. split; intros w x d Hin Hn; rewrite app_create_run;
    cbn [ItemCreate.name].
  - assert (T : name_taken (items (store w)) (pre ++ s ++ post) = true).
    { apply name_taken_true. exists x. split; [exact Hin|].
      rewrite Hn, K. reflexivity. }
    rewrite T. reflexivity.
  - assert (T : name_taken (items (store w)) s = true).
    { apply name_taken_true. exists x. split; [exact Hin|].
      rewrite Hn, K. reflexivity. }
    rewrite T. reflexivity.
Qed.

Lemma isspace_ascii_lower_char (c : N) :
  isspace (ascii_lower_char c) = isspace c.
Proof.
  unfold ascii_lower_char.
  destruct ((0x41 <=? c) && (c <=? 0x5A))%N eqn:H; [|reflexivity].
  apply andb_prop in H. destruct H as [H1 H2].
  apply N.leb_le in H1, H2.
  assert (In (N.to_nat c) (seq 65 26)) as Hin by (apply in_seq; lia).
  assert (All : forallb
                  (fun n => Bool.eqb (isspace (N.of_nat n + 32))
                              (isspace (N.of_nat n)))
                  (seq 65 26) = true) by (vm_compute; reflexivity).
  rewrite forallb_forall in All. specialize (All _ Hin).
  rewrite N2Nat.id in All. apply Bool.eqb_prop in All. exact All.
Qed.

Lemma lstrip_ascii_lower (s : str) :
  lstrip (ascii_lower s) = ascii_lower (lstrip s).
Proof.
  unfold ascii_lower. induction s as [|c s IH]; cbn [map lstrip];
    [reflexivity|].
  rewrite isspace_ascii_lower_char. destruct (isspace c);
    [exact IH|reflexivity].
Qed.

Lemma strip_ascii_lower (s : str) :
  strip (ascii_lower s) = ascii_lower (strip s).
Proof.
  assert (R : forall u, rev (ascii_lower u) = ascii_lower (rev u))
    by (intros u; unfold ascii_lower; symmetry; apply map_rev).
  unfold strip, rstrip.
  rewrite lstrip_ascii_lower, R, lstrip_ascii_lower, R. reflexivity.
Qed.

Lemma lstrip_is_ascii (s : str) :
  forallb is_ascii s = true -> forallb is_ascii (lstrip s) = true.
Proof.
  induction s as [|c s IH]; cbn [lstrip]; [reflexivity|].
  destruct (isspace c); [|intros H; exact H].
  cbn [forallb]. intros H. apply andb_prop in H. apply IH, H.
Qed.

Lemma strip_is_ascii (s : str) :
  forallb is_ascii s = true -> forallb is_ascii (strip s) = true.
Proof.
  intros H. unfold strip, rstrip. rewrite forallb_rev.
  apply lstrip_is_ascii. rewrite forallb_rev.
  apply lstrip_is_ascii. exact H.
Qed.

Section AsciiCase.

(** On a text of ASCII code points [str.lower] maps [A]..[Z] to [a]..[z]
    and keeps the rest. *)
Hypothesis lower_ascii :
  forall s, forallb is_ascii s = true -> lower s = ascii_lower s.

(** X12. The case of ASCII letters does not count.  When [str.lower] is
    the ASCII lowercase on ASCII text, the normalized form of an ASCII
    name is its lowercase without the surrounding white space; so two
    ASCII names with the same lowercase are duplicates of each other: a
    create of one while the other is stored is answered with the 400. *)
Theorem ascii_case_is_ignored (s t : str) :
  forallb is_ascii s = true ->
  forallb is_ascii t = true ->
  normalize_name s = strip (ascii_lower s)
  /\ (ascii_lower s = ascii_lower t ->
      normalize_name s = normalize_name t
      /\ forall w x d,
          In x (items (store w)) ->
          Item.name x = s ->
          fst (app (POST_items (ItemCreate.mk t d)) w)
          = duplicate_response).
Proof.
  intros Hs Ht.
  assert (K : forall u, forallb is_ascii u = true ->
                        normalize_name u = strip (ascii_lower u)).
  { intros u Hu. unfold normalize_name.
    rewrite (lower_ascii _ (strip_is_ascii u Hu)).
    symmetry. apply strip_ascii_lower. }
  split; [exact (K s Hs)|]. intros E.
  assert (Same : normalize_name s = normalize_name t)
    by (rewrite (K s Hs), (K t Ht), E; reflexivity).
  split; [exact Same|]. intros w x d Hin Hn.
  rewrite app_create_run. cbn [ItemCreate.name].
  assert (T : name_taken (items (store w)) t = true).
  { apply name_taken_true. exists x. split; [exact Hin|].
    rewrite Hn. exact Same. }
  rewrite T. reflexivity.
Qed.

End AsciiCase.

End Api.

(* ------------------------------------------------------------------ *)
(** ** The theorems at work

    The statements above, applied to concrete requests, with the lowercase
    of ASCII text for [str.lower] and "dev" for [APP_ENV]. *)



Lemma unique_names_invariant_witness :
  unique_names ascii_lower
    (store (serve ascii_lower (lit "dev")
              [POST_items pen; POST_items ink] initial_world))
  /\ unique_names ascii_lower
       (store (snd (app ascii_lower (lit "dev") (POST_items widget)
                      (serve ascii_lower (lit "dev")
                         [POST_items pen; POST_items ink] initial_world))))
  /\ length (items (store (snd (app ascii_lower (lit "dev")
                                 (POST_items widget)
                                 (serve ascii_lower (lit "dev")
                                    [POST_items pen; POST_items ink]
                                    initial_world)))))
     = 3%nat.
Proof.
  assert (U : unique_names ascii_lower
    (store (serve ascii_lower (lit "dev")
              [POST_items pen; POST_items ink] initial_world)))
    by (intros [|[|[|i]]] [|[|[|j]]] a b A B E;
        vm_compute in A; vm_compute in B;
        try discriminate A; try discriminate B; try reflexivity;
        injection A as <-; injection B as <-;
        vm_compute in E; discriminate E).
  split; [exact U|]. split; [|reflexivity].
  exact (proj2 (unique_names_invariant ascii_lower (lit "dev")) _ _ U).
Defined.

Lemma create_item_duplicate_iff_witness :
  fst (create_item ascii_lower (ItemCreate.mk (lit "pen") None)
         (serve ascii_lower (lit "dev") [POST_items pen] initial_world))
  = inl DuplicateName.
Proof.
  apply (proj1 (create_item_duplicate_iff ascii_lower (lit "dev") _ _)).
  exists (Item.mk 1 (lit "Pen") None).
  split; [left; reflexivity|reflexivity].
Defined.





Lemma delete_item_absent_witness :
  no_id (items (store initial_world)) 9999
  /\ fst (delete_item 9999 initial_world) = inl NotFound
  /\ fst (app ascii_lower (lit "dev") (DELETE_item 9999) initial_world)
     = not_found_response
  /\ items (store (snd (delete_item 9999 initial_world))) = []
  /\ next_id (store (snd (delete_item 9999 initial_world))) = 1.
Proof.
  assert (N : no_id (items (store initial_world)) 9999) by constructor.
  split; [exact N|].
  exact (delete_item_absent ascii_lower (lit "dev") 9999 initial_world N).
Defined.

Lemma deleted_id_never_reused_witness :
  fst (get_item 1
         (serve ascii_lower (lit "dev") [POST_items widget]
            (snd (delete_item 1
                    (serve ascii_lower (lit "dev") [POST_items ink]
                       (snd (create_item ascii_lower pen initial_world)))))))
  = inl NotFound.
Proof.
  exact (proj1
           (deleted_id_never_reused ascii_lower (lit "dev")
              [] [POST_items ink] [POST_items widget] pen
              (Item.mk 1 (lit "Pen") None) eq_refl eq_refl)).
Defined.



Lemma delete_item_removes_one_witness :
  fst (delete_item 1
         (serve ascii_lower (lit "dev")
            [POST_items pen; POST_items ink] initial_world))
  = inr tt
  /\ exists l1 item l2,
       items (store (serve ascii_lower (lit "dev")
                       [POST_items pen; POST_items ink] initial_world))
       = l1 ++ item :: l2
       /\ Item.id item = 1
       /\ items (store (snd (delete_item 1
                  (serve ascii_lower (lit "dev")
                     [POST_items pen; POST_items ink] initial_world))))
          = l1 ++ l2.
Proof.
  split; [reflexivity|].
  destruct (delete_item_removes_one ascii_lower (lit "dev") 1
              (serve ascii_lower (lit "dev")
                 [POST_items pen; POST_items ink] initial_world) eq_refl)
    as (l1 & item & l2 & L & I & _ & R & _).
  exists l1, item, l2. repeat split; assumption.
Defined.

Lemma blank_names_collide_witness :
  ascii_lower [] = []
  /\ fst (create_item ascii_lower empty_name
            (snd (create_item ascii_lower blank initial_world)))
     = inl DuplicateName.
Proof.
  split; [reflexivity|].
  apply (proj2 (proj2 (proj2
           (blank_names_collide ascii_lower (lit "dev") eq_refl)))
           empty_name _ (Item.mk 1 (lit "  ") None)).
  - reflexivity.
  - left; reflexivity.
  - reflexivity.
Defined.

Lemma log_does_not_matter_witness :
  store initial_world
  = store (mkWorld initial_store [mkLogRecord WARNING "earlier" []])
  /\ responses ascii_lower (lit "dev")
       [POST_items pen; GET_item 1; DELETE_item 2] initial_world
     = responses ascii_lower (lit "dev")
         [POST_items pen; GET_item 1; DELETE_item 2]
         (mkWorld initial_store [mkLogRecord WARNING "earlier" []]).
Proof.
  split; [reflexivity|].
  exact (proj1
           (log_does_not_matter ascii_lower (lit "dev")
              [POST_items pen; GET_item 1; DELETE_item 2]
              initial_world
              (mkWorld initial_store [mkLogRecord WARNING "earlier" []])
              eq_refl)).
Defined.


Lemma get_after_create_witness :
  ids_ok (store initial_world)
  /\ Forall (fun r => r <> DELETE_item 1)
       [POST_items ink; GET_items; DELETE_item 2]
  /\ fst (app ascii_lower (lit "dev") (GET_item 1)
            (serve ascii_lower (lit "dev")
               [POST_items ink; GET_items; DELETE_item 2]
               (snd (create_item ascii_lower pen initial_world))))
     = mkResponse 200 (ItemBody (Item.mk 1 (lit "Pen") None)).
Proof.
  assert (Ok : ids_ok (store initial_world))
    by (unfold ids_ok; cbn; split; [constructor|split; [constructor|lia]]).
  assert (Keep : Forall (fun r => r <> DELETE_item 1)
                   [POST_items ink; GET_items; DELETE_item 2])
    by (repeat constructor; discriminate).
  split; [exact Ok|]. split; [exact Keep|].
  exact (proj1 (proj2 (proj2
           (get_after_create ascii_lower (lit "dev") pen initial_world
              (Item.mk 1 (lit "Pen") None)
              [POST_items ink; GET_items; DELETE_item 2]
              Ok eq_refl Keep)))
           eq_refl).
Defined.

Lemma listed_items_retrievable_witness :
  In (Item.mk 2 (lit "Ink") (Some (lit "blue")))
    (items (store (serve ascii_lower (lit "dev")
                     [POST_items pen; POST_items ink] initial_world)))
  /\ fst (app ascii_lower (lit "dev") (GET_item 2)
            (serve ascii_lower (lit "dev")
               [POST_items pen; POST_items ink] initial_world))
     = mkResponse 200 (ItemBody (Item.mk 2 (lit "Ink") (Some (lit "blue")))).
Proof.
  assert (Hin : In (Item.mk 2 (lit "Ink") (Some (lit "blue")))
    (items (store (serve ascii_lower (lit "dev")
                     [POST_items pen; POST_items ink] initial_world))))
    by (right; left; reflexivity).
  split; [exact Hin|].
  exact (proj2 (proj2 (proj2
           (proj1 (proj2
              (listed_items_retrievable ascii_lower (lit "dev")
                 [POST_items pen; POST_items ink]))
              (Item.mk 2 (lit "Ink") (Some (lit "blue"))) Hin)))
           eq_refl).
Defined.

Lemma name_free_after_delete_witness :
  In (Item.mk 1 (lit "Pen") None)
    (items (store (serve ascii_lower (lit "dev") [POST_items pen]
                     initial_world)))
  /\ fst (app ascii_lower (lit "dev")
            (POST_items (ItemCreate.mk (lit "Pen") (Some (lit "again"))))
            (snd (app ascii_lower (lit "dev") (DELETE_item 1)
                    (serve ascii_lower (lit "dev") [POST_items pen]
                       initial_world))))
     = created_response (Item.mk 2 (lit "Pen") (Some (lit "again"))).
Proof.
  assert (Hin : In (Item.mk 1 (lit "Pen") None)
    (items (store (serve ascii_lower (lit "dev") [POST_items pen]
                     initial_world))))
    by (left; reflexivity).
  split; [exact Hin|].
  exact (proj1 (proj2 (proj2 (proj2
           (name_free_after_delete ascii_lower (lit "dev") [POST_items pen]
              (Item.mk 1 (lit "Pen") None) (Some (lit "again")) Hin))))
           eq_refl).
Defined.

Lemma delete_only_once_witness :
  ids_ok (store (serve ascii_lower (lit "dev") [POST_items pen]
                   initial_world))
  /\ fst (app ascii_lower (lit "dev") (DELETE_item 1)
            (serve ascii_lower (lit "dev") [POST_items ink]
               (snd (delete_item 1
                       (serve ascii_lower (lit "dev") [POST_items pen]
                          initial_world)))))
     = not_found_response.
Proof.
  assert (Ok : ids_ok (store (serve ascii_lower (lit "dev") [POST_items pen]
                                initial_world)))
    by (unfold ids_ok; cbn; split; [repeat constructor|];
        split; [repeat constructor; cbn; lia|lia]).
  split; [exact Ok|].
  exact (proj1
           (delete_only_once ascii_lower (lit "dev") 1
              (serve ascii_lower (lit "dev") [POST_items pen] initial_world)
              [POST_items ink] Ok eq_refl)).
Defined.

Lemma padding_is_ignored_witness :
  forallb isspace [32%N] = true
  /\ forallb isspace [9%N; 10%N] = true
  /\ normalize_name ascii_lower ([32%N] ++ lit "Pen" ++ [9%N; 10%N])
     = normalize_name ascii_lower (lit "Pen").
Proof.
  split; [reflexivity|]. split; [reflexivity|].
  exact (proj1
           (padding_is_ignored ascii_lower (lit "dev")
              [32%N] (lit "Pen") [9%N; 10%N] eq_refl eq_refl)).
Defined.

Lemma ascii_case_is_ignored_witness :
  (forall s, forallb is_ascii s = true -> ascii_lower s = ascii_lower s)
  /\ forallb is_ascii (lit "Pen") = true
  /\ forallb is_ascii (lit "PEN") = true
  /\ ascii_lower (lit "Pen") = ascii_lower (lit "PEN")
  /\ fst (app ascii_lower (lit "dev")
            (POST_items (ItemCreate.mk (lit "PEN") None))
            (serve ascii_lower (lit "dev") [POST_items pen] initial_world))
     = duplicate_response.
Proof.
  split; [reflexivity|]. split; [reflexivity|]. split; [reflexivity|].
  split; [reflexivity|].
  apply (proj2 (proj2
           (ascii_case_is_ignored ascii_lower (lit "dev")
              (fun s _ => eq_refl) (lit "Pen") (lit "PEN") eq_refl eq_refl)
           eq_refl)
           _ (Item.mk 1 (lit "Pen") None)).
  - left; reflexivity.
  - reflexivity.
Defined.
